(** * The application catalog of [src/lib/data.ts]

    The source file exports one constant, [apps], an array literal of
    application descriptors.  This development embeds the literal as it
    is written, field by field and in declaration order, and proves the
    catalog's invariants on it.  The name-keyed operations that the
    design document asks of a catalog are not part of [data.ts]; they are
    modelled here from the document and studied on the embedded literal.

    The source text continues with the build-and-sign shell script of the
    repository.  Its tests, its commands and its fail-stop behaviour are
    embedded in [BuildSign] below and studied in the last part of the
    file. *)

From stdpp Require Import base list strings.
From Stdlib Require Import ZArith NArith Ascii.

Local Open Scope string_scope.
Local Open Scope Z_scope.

(** ** Data model

    [data.ts] imports the type [App] from [@/types/components/app], which
    is not among the sources.  The records below take their shape from
    the fields the literal populates: every entry carries [name],
    [description], [stars], [icon], [category], [price] and [developer];
    [envVars] is present in some entries and absent in the others, hence
    an [option]. *)

Module EnvVarSpec.
Record t := mk {
  name : string;
  label : string;
  description : string;
}.
End EnvVarSpec.

Module IconUrl.
Record t := mk {
  light : string;
  dark : string;
}.
End IconUrl.

Module Icon.
(** The literal writes the discriminator as a string-valued field
    [type]; it is kept as data so that its value can be examined. *)
Record t := mk {
  type : string;
  url : IconUrl.t;
}.
End Icon.

Module App.
Record t := mk {
  name : string;
  description : string;
  stars : Z;
  icon : Icon.t;
  category : string;
  price : string;
  developer : string;
  envVars : option (list EnvVarSpec.t);
}.
End App.

#[global] Instance EnvVarSpec_eq_dec : EqDecision EnvVarSpec.t.
Proof. solve_decision. Defined.
#[global] Instance IconUrl_eq_dec : EqDecision IconUrl.t.
Proof. solve_decision. Defined.
#[global] Instance Icon_eq_dec : EqDecision Icon.t.
Proof. solve_decision. Defined.
#[global] Instance App_eq_dec : EqDecision App.t.
Proof. solve_decision. Defined.

(** ** The literal, entry by entry (data.ts, lines 3-113) *)

Definition browser : App.t :=
  {| App.name := "Browser";
     App.description := "Web browser";
     App.stars := 1000;
     App.icon :=
       {| Icon.type := "url";
          Icon.url := {| IconUrl.light := "/servers/browser.svg";
                         IconUrl.dark := "/servers/browser.svg" |} |};
     App.category := "Utilities";
     App.price := "Get";
     App.developer := "Google LLC";
     App.envVars := None |}.

Definition hacker_news : App.t :=
  {| App.name := "Hacker News";
     App.description := "Hacker News";
     App.stars := 1000;
     App.icon :=
       {| Icon.type := "url";
          Icon.url := {| IconUrl.light := "/servers/yc.svg";
                         IconUrl.dark := "/servers/yc.svg" |} |};
     App.category := "Social";
     App.price := "Get";
     App.developer := "Y Combinator";
     App.envVars := None |}.

Definition june : App.t :=
  {| App.name := "June";
     App.description := "June";
     App.stars := 1000;
     App.icon :=
       {| Icon.type := "url";
          Icon.url := {| IconUrl.light := "/servers/june.svg";
                         IconUrl.dark := "/servers/june.svg" |} |};
     App.category := "Analytics";
     App.price := "Get";
     App.developer := "June";
     App.envVars := Some
       [ {| EnvVarSpec.name := "JUNE_API_URL";
            EnvVarSpec.label := "June API URL";
            EnvVarSpec.description := "June API URL" |};
         {| EnvVarSpec.name := "JUNE_API_KEY";
            EnvVarSpec.label := "June API Key";
            EnvVarSpec.description := "June API Key" |} ] |}.

Definition linear : App.t :=
  {| App.name := "Linear";
     App.description := "Linear";
     App.stars := 1000;
     App.icon :=
       {| Icon.type := "url";
          Icon.url := {| IconUrl.light := "/servers/linear-dark.svg";
                         IconUrl.dark := "/servers/linear-light.svg" |} |};
     App.category := "Productivity";
     App.price := "Get";
     App.developer := "Linear";
     App.envVars := Some
       [ {| EnvVarSpec.name := "LINEAR_API_KEY";
            EnvVarSpec.label := "Linear API Key";
            EnvVarSpec.description := "Your Linear API key for authentication" |} ] |}.

Definition gmail : App.t :=
  {| App.name := "Gmail";
     App.description := "Email and messaging platform";
     App.stars := 1000;
     App.icon :=
       {| Icon.type := "url";
          Icon.url := {| IconUrl.light := "/servers/gmail.svg";
                         IconUrl.dark := "/servers/gmail.svg" |} |};
     App.category := "Productivity";
     App.price := "Free";
     App.developer := "Google LLC";
     App.envVars := None |}.

Definition google_calendar : App.t :=
  {| App.name := "Google Calendar";
     App.description := "Schedule and organize events";
     App.stars := 1000;
     App.icon :=
       {| Icon.type := "url";
          Icon.url := {| IconUrl.light := "/servers/gcal.svg";
                         IconUrl.dark := "/servers/gcal.svg" |} |};
     App.category := "Productivity";
     App.price := "Free";
     App.developer := "Google LLC";
     App.envVars := None |}.

(** [export const apps: App[] = [ ... ] as const;] *)
Definition apps : list App.t :=
  [ browser; hacker_news; june; linear; gmail; google_calendar ].

(** ** Loading

    [data.ts] consists of the single statement
    [export const apps: App[] = [ ... ] as const;].  Evaluating the
    module binds the array literal as written: no function is called on
    it, nothing is compared, and no exception can be raised.  The annotation
    [App[]] is erased at run time.  [load_catalog] is
    that binding with the literal taken as its argument; the result type
    makes room for the two error classes of the design document so that
    "loading fails" can be stated at all. *)

Inductive CatalogError : Type :=
  | NotFound
  | MalformedCatalog.

Inductive result (A : Type) : Type :=
  | Ok (a : A)
  | Err (e : CatalogError).
Arguments Ok {A} a.
Arguments Err {A} e.

Definition load_catalog (literal : list App.t) : result (list App.t) :=
  Ok literal.

(** ** Catalog operations *)

Module Catalog.
Section Operations.

(** The catalog value handed to consumers. *)
Variable catalog : list App.t.

(** Modelled from the spec: [listAll] is not defined in [data.ts].  The
    document says it "produces the ordered sequence of AppDescriptors
    exactly in declaration order"; consumers read the exported array. *)
Definition listAll : list App.t := catalog.

(** Modelled from the spec: [findByName] is not defined in [data.ts].
    The document says it "returns the unique AppDescriptor whose name
    matches, or signals a NotFound condition; must not silently return
    the first of several matches".  All matches are collected; none is
    NotFound, exactly one is the answer, and several matches are
    reported as a violated catalog invariant instead of picking one. *)
Definition findByName (n : string) : result App.t :=
  match filter (λ a, App.name a = n) catalog with
  | [] => Err NotFound
  | [a] => Ok a
  | _ :: _ :: _ => Err MalformedCatalog
  end.

(** Modelled from the spec: [requiredEnvVars] is not defined in
    [data.ts].  The document says it "returns the ordered sequence of
    EnvVarSpec for that app, or an empty sequence if the app declares
    none; signals NotFound if the app does not exist". *)
Definition requiredEnvVars (n : string) : result (list EnvVarSpec.t) :=
  match findByName n with
  | Ok a => Ok (default [] (App.envVars a))
  | Err e => Err e
  end.

End Operations.
End Catalog.

(** ** Sessions

    The array bound by [data.ts] is one object shared by all its
    consumers: whatever a call did to it would be seen by every later
    call.  A session is a sequence of calls of the catalog operations, in
    any order and with any arguments, threaded through the array. *)

Module Session.








End Session.

(** ** Decidable forms of the invariants *)

Definition nonempty (s : string) : bool := bool_decide (s ≠ "").

Definition names_of (c : list App.t) : list string := App.name <$> c.

Definition env_names_of (vs : list EnvVarSpec.t) : list string :=
  EnvVarSpec.name <$> vs.

(** The five string fields every entry must populate. *)
Definition required_fields (a : App.t) : list string :=
  [ App.name a; App.description a; App.developer a; App.category a;
    App.price a ].

Definition envVars_ok (a : App.t) : bool :=
  match App.envVars a with
  | None => true
  | Some vs =>
      bool_decide (vs ≠ [])
      && forallb nonempty (env_names_of vs)
      && bool_decide (NoDup (env_names_of vs))
  end.

(** Modelled from the spec: the validation contract of the design
    document (section 4.1) has no counterpart in [data.ts].  It rejects a
    catalog "where any name is empty or duplicated, where any
    EnvVarSpec.name is empty or duplicated within its owning app, or where
    icon.url.light/icon.url.dark are empty strings", and section 7 adds
    any "empty required field". *)
Definition validate (c : list App.t) : result (list App.t) :=
  if bool_decide (NoDup (names_of c))
     && forallb (λ a, forallb nonempty (required_fields a)) c
     && forallb envVars_ok c
     && forallb (λ a, nonempty (IconUrl.light (Icon.url (App.icon a)))
                      && nonempty (IconUrl.dark (Icon.url (App.icon a)))) c
  then Ok c
  else Err MalformedCatalog.

(** A catalog with two entries named "Gmail": the shipped one followed by
    a second copy of the Gmail entry. *)
Definition two_gmail : list App.t := apps ++ [gmail].

(** ** Tests on strings *)

(** Every character of a string passes a test. *)
Fixpoint all_chars (p : ascii → bool) (s : string) : bool :=
  match s with
  | "" => true
  | String c s' => p c && all_chars p s'
  end.

Definition is_not (c : ascii) (x : ascii) : bool := negb (Ascii.eqb x c).

(** An upper-case letter or an underscore. *)
Definition env_var_char (c : ascii) : bool :=
  let n := N_of_ascii c in
  ((65 <=? n) && (n <=? 90))%N || Ascii.eqb c "_".

Definition has_suffix (suffix s : string) : bool :=
  String.prefix (String.rev suffix) (String.rev s).

(** The environment variables an entry declares, none when it has no
    [envVars] field. *)
Definition declared (a : App.t) : list EnvVarSpec.t :=
  default [] (App.envVars a).

(** Both icon paths of an entry. *)
Definition icon_paths (a : App.t) : list string :=
  [ IconUrl.light (Icon.url (App.icon a));
    IconUrl.dark (Icon.url (App.icon a)) ].

(** Case analysis on hypotheses that place a value in an explicit list. *)
Ltac split_members :=
  repeat match goal with
         | H : _ ∈ _ :: _ |- _ => apply elem_of_cons in H
         | H : _ ∈ [] |- _ => by apply elem_of_nil in H
         | H : _ ∨ _ |- _ => destruct H
         | H : False |- _ => destruct H
         end.

(** ** The build-and-sign script

    The second half of the source is a bash script that builds the
    desktop bundle, signs it, packs a disk image and, on request,
    notarizes it.  The script runs under [set -e]: the first simple
    command that returns a non-zero status ends the script with that
    status.  This holds for the [echo] lines too, whose write can fail,
    and for [read].

    What the script reads is taken as input: whether a file [.env]
    exists; the four [APPLE_*] variables as they stand after the [.env]
    block (the file is taken to hold assignments only, so that sourcing
    it succeeds; the script has no [set -u], so an unset variable reads as
    the empty string); the directory of the script ([dirname "$0"]); the
    value that [read] stores in [SHOULD_NOTARIZE], or, when [read] fails,
    its non-zero status (1 at the end of input, above 128 on a time-out);
    the exit status of every command it starts; and, for every [echo]
    line, whether its write succeeds (the builtin returns 1 when it does
    not).  An [echo] line is named by its line number in the source text;
    no line is run twice.  The text utilities of the command substitution
    ([grep], [tr], [dirname]) are taken to work as documented.

    What the script does is the sequence of commands it starts, each
    with its argument vector, and its exit status.  What the [echo] lines
    print is not recorded. *)

Module BuildSign.

Record Env := mkEnv {
  APPLE_SIGNING_IDENTITY : string;
  APPLE_TEAM_ID : string;
  APPLE_ID : string;
  APPLE_PASSWORD : string;
}.

Record Input := mkInput {
  has_dotenv : bool;
  env : Env;
  script_dir : string;
  answer : option string;
  read_failure : positive;
  status : list string → Z;
  echo_ok : nat → bool;
}.

(** *** Extracting the team identifier

    The script pipes [echo "$APPLE_SIGNING_IDENTITY"] through [grep -o]
    and [tr -d] inside a command substitution.  The pattern given to grep
    is a literal opening parenthesis, then [[A-Z0-9]] starred, then a
    literal closing parenthesis. *)

Definition newline : ascii := "010"%char.

(** The bracket expression [[A-Z0-9]], read on byte values as in the C
    locale. *)
Definition in_class (c : ascii) : bool :=
  let n := N_of_ascii c in
  ((65 <=? n) && (n <=? 90) || (48 <=? n) && (n <=? 57))%N.

(** The letters of the options of bash's builtin [echo]. *)
Definition echo_flag (c : ascii) : bool :=
  Ascii.eqb c "n" || Ascii.eqb c "e" || Ascii.eqb c "E".

(** An argument is taken as options when it is a dash followed by one or
    more option letters and nothing else. *)
Definition is_echo_option (s : string) : bool :=
  match s with
  | String c0 (String c1 r) =>
      Ascii.eqb c0 "-" && all_chars echo_flag (String c1 r)
  | _ => false
  end.

(** [echo "$X"] prints its argument followed by a newline, unless the
    argument is taken as options: then nothing is left to print, and the
    newline is dropped as well when the letter n is among them. *)
Definition echo (s : string) : string :=
  if is_echo_option s then
    if all_chars (is_not "n") s then String newline "" else ""
  else s +:+ String newline "".

(** [grep -o] with that pattern: every match, leftmost first and not
    overlapping, on a line of its own.  In a basic regular expression the
    parentheses are literal, so a match is an opening parenthesis, the
    longest run of class characters after it, and a closing parenthesis
    right after the run.  [cur] is the run read since the last opening
    parenthesis, if the text read so far can still become a match.  A
    newline is outside the class and ends any candidate, which is what
    matching line by line does. *)
Fixpoint grep_o (cur : option string) (s : string) : string :=
  match s with
  | "" => ""
  | String c s' =>
      if Ascii.eqb c "(" then grep_o (Some "") s'
      else match cur with
           | Some run =>
               if Ascii.eqb c ")" then
                 String "(" run +:+ String ")" (String newline "")
                 +:+ grep_o None s'
               else if in_class c then
                 grep_o (Some (run +:+ String c "")) s'
               else grep_o None s'
           | None => grep_o None s'
           end
  end.

(** [tr -d] with the set of the two parentheses deletes every
    parenthesis. *)
Fixpoint tr_d (s : string) : string :=
  match s with
  | "" => ""
  | String c s' =>
      if Ascii.eqb c "(" || Ascii.eqb c ")" then tr_d s'
      else String c (tr_d s')
  end.

(** [$( ... )] removes all trailing newlines of the output. *)
Fixpoint strip_trailing_newlines (s : string) : string :=
  match s with
  | "" => ""
  | String c s' =>
      match strip_trailing_newlines s' with
      | "" => if Ascii.eqb c newline then "" else String c ""
      | r => String c r
      end
  end.

Definition extract_team_id (identity : string) : string :=
  strip_trailing_newlines (tr_d (grep_o None (echo identity))).

(** *** Commands under [set -e] *)

Inductive step (A : Type) : Type :=
  | Next (a : A)
  | Exit (code : Z).
Arguments Next {A} a.
Arguments Exit {A} code.

(** A script fragment consults the input, extends the list of commands
    started so far, and either goes on or ends the script. *)
Definition Sh (A : Type) : Type :=
  Input → list (list string) → step A * list (list string).

Definition ret {A : Type} (a : A) : Sh A := λ _ t, (Next a, t).

Definition bind {A B : Type} (m : Sh A) (k : A → Sh B) : Sh B :=
  λ i t,
    match m i t with
    | (Next a, t') => k a i t'
    | (Exit c, t') => (Exit c, t')
    end.

Definition exit {A : Type} (c : Z) : Sh A := λ _ t, (Exit c, t).

(** A simple command: it is started, and under [set -e] a non-zero status
    ends the script with that status. *)
Definition run (cmd : list string) : Sh unit :=
  λ i t,
    if decide (status i cmd = 0) then (Next tt, (t ++ [cmd])%list)
    else (Exit (status i cmd), (t ++ [cmd])%list).

(** The [echo] of a source line: when its write fails it returns 1, which
    ends the script. *)
Definition say (line : nat) : Sh unit :=
  λ i t, if echo_ok i line then (Next tt, t) else (Exit 1, t).
Arguments say line%_nat.

(** [read -p "..." SHOULD_NOTARIZE] *)
Definition read_answer : Sh string :=
  λ i t,
    match answer i with
    | Some s => (Next s, t)
    | None => (Exit (Z.pos (read_failure i)), t)
    end.

Declare Scope sh_scope.
Delimit Scope sh_scope with sh.
Notation "x ← y ; z" := (bind y (λ x, z))
  (at level 20, y at level 100, z at level 200, only parsing) : sh_scope.
Notation "x ;; z" := (bind x (λ _, z))
  (at level 100, z at level 200, only parsing, right associativity)
  : sh_scope.

(** [[[ "$SHOULD_NOTARIZE" =~ ^[Yy]$ ]]] *)
Definition is_yes (s : string) : bool := bool_decide (s = "y" ∨ s = "Y").

Definition APP_BUNDLE_PATH : string :=
  "./src-tauri/target/release/bundle/macos/Fleur.app".

Definition signed_dmg : string :=
  "./src-tauri/target/release/bundle/dmg/Fleur_signed.dmg".

Definition entitlements : string := "./src-tauri/macos/entitlements.plist".

(** The commands of the script, each with its argument vector after
    expansion of the quoted variables, in the order of the script text. *)

(** [cd "$(dirname "$0")"] *)
Definition cd_script_dir (i : Input) : list string := ["cd"; script_dir i].

(** [pushd src-tauri > /dev/null] *)
Definition pushd_src_tauri : list string := ["pushd"; "src-tauri"].

(** [bun tauri build] *)
Definition bun_tauri_build : list string := ["bun"; "tauri"; "build"].

(** [popd > /dev/null] *)
Definition popd : list string := ["popd"].

(** [codesign] of the main executable, with the hardened runtime. *)
Definition codesign_executable (e : Env) : list string :=
  ["codesign"; "--force"; "--options"; "runtime"; "--timestamp";
   "--sign"; APPLE_SIGNING_IDENTITY e;
   "--entitlements"; entitlements;
   APP_BUNDLE_PATH +:+ "/Contents/MacOS/fleur"].

(** [codesign --deep] of the whole bundle. *)
Definition codesign_bundle (e : Env) : list string :=
  ["codesign"; "--force"; "--deep"; "--options"; "runtime";
   "--timestamp"; "--sign"; APPLE_SIGNING_IDENTITY e;
   "--entitlements"; entitlements; APP_BUNDLE_PATH].

(** [hdiutil create] of the disk image from the signed bundle. *)
Definition hdiutil_create : list string :=
  ["hdiutil"; "create"; "-volname"; "Fleur"; "-srcfolder";
   APP_BUNDLE_PATH; "-ov"; "-format"; "UDZO"; signed_dmg].

(** [codesign] of the disk image. *)
Definition codesign_dmg (e : Env) : list string :=
  ["codesign"; "--force"; "--timestamp"; "--sign";
   APPLE_SIGNING_IDENTITY e; signed_dmg].

(** [xcrun notarytool submit ... --wait]; [team] is the value of
    [APPLE_TEAM_ID] at that point of the script. *)
Definition notarytool_submit (e : Env) (team : string) : list string :=
  ["xcrun"; "notarytool"; "submit"; signed_dmg;
   "--apple-id"; APPLE_ID e; "--password"; APPLE_PASSWORD e;
   "--team-id"; team; "--wait"].

(** [xcrun stapler staple] *)
Definition stapler_staple : list string :=
  ["xcrun"; "stapler"; "staple"; signed_dmg].

(** Lines 117 to 163: the [.env] block, the banner and the tests.  When
    the script gets past them, the values of [APPLE_TEAM_ID] and of
    [SHOULD_NOTARIZE] are those returned here. *)
Definition preflight (i : Input) : Sh (string * string) :=
  (let e := env i in
   (if has_dotenv i then say 118 else ret tt) ;;
   say 130 ;; say 131 ;; say 132 ;;
   (if decide (APPLE_SIGNING_IDENTITY e = "") then
      say 135 ;; say 136 ;; exit 1
    else ret tt) ;;
   team ← (if decide (APPLE_TEAM_ID e = "") then
             say 141 ;;
             let extracted := extract_team_id (APPLE_SIGNING_IDENTITY e) in
             if decide (extracted = "") then say 146 ;; say 147 ;; exit 1
             else say 150 ;; ret extracted
           else ret (APPLE_TEAM_ID e));
   SHOULD_NOTARIZE ← read_answer;
   (if is_yes SHOULD_NOTARIZE then
      if decide (APPLE_ID e = "" ∨ APPLE_PASSWORD e = "") then
        say 158 ;; say 159 ;; say 160 ;; exit 1
      else ret tt
    else ret tt) ;;
   ret (team, SHOULD_NOTARIZE))%sh.

(** Lines 165 to 214: build, signatures, disk image, notarization and the
    closing messages. *)
Definition build_sign_notarize (i : Input) (team SHOULD_NOTARIZE : string)
  : Sh unit :=
  (let e := env i in
   say 165 ;;
   run (cd_script_dir i) ;;
   run pushd_src_tauri ;;
   say 169 ;;
   run bun_tauri_build ;;
   run popd ;;
   say 177 ;;
   run (codesign_executable e) ;;
   say 181 ;;
   run (codesign_bundle e) ;;
   say 185 ;;
   run hdiutil_create ;;
   say 188 ;;
   run (codesign_dmg e) ;;
   (if is_yes SHOULD_NOTARIZE then
      say 192 ;;
      run (notarytool_submit e team) ;;
      say 201 ;;
      run stapler_staple
    else ret tt) ;;
   say 205 ;; say 206 ;; say 207 ;; say 208 ;; say 209 ;;
   say 210 ;; say 211 ;; say 212 ;; say 213 ;; say 214)%sh.

(** The script. *)
Definition main (i : Input) : Sh unit :=
  (v ← preflight i; build_sign_notarize i v.1 v.2)%sh.

(** Running the script: its exit status and the commands it started, in
    order.  Reaching the end of the script gives the status of its last
    [echo], which is 0. *)
Definition build_and_sign (i : Input) : Z * list (list string) :=
  match main i i [] with
  | (Next _, t) => (0, t)
  | (Exit c, t) => (c, t)
  end.

(** *** Vocabulary for the properties of the script *)

(** The value of [APPLE_TEAM_ID] after the second test of the script:
    the variable when it is set, the extracted identifier otherwise. *)
Definition team_id_used (e : Env) : string :=
  if decide (APPLE_TEAM_ID e = "") then
    extract_team_id (APPLE_SIGNING_IDENTITY e)
  else APPLE_TEAM_ID e.

(** Whether the answer stored by [read] asks for notarization. *)
Definition wants_notarize (i : Input) : bool :=
  match answer i with
  | Some s => is_yes s
  | None => false
  end.

(** One of the tests placed before the first command ends the script. *)
Definition preflight_fails (i : Input) : Prop :=
  APPLE_SIGNING_IDENTITY (env i) = ""
  ∨ team_id_used (env i) = ""
  ∨ answer i = None
  ∨ (wants_notarize i = true
     ∧ (APPLE_ID (env i) = "" ∨ APPLE_PASSWORD (env i) = "")).

#[global] Instance preflight_fails_dec i : Decision (preflight_fails i).
Proof. unfold preflight_fails. apply _. Defined.

(** All the commands of a run in which nothing fails, in order. *)
Definition plan (i : Input) : list (list string) :=
  ([ cd_script_dir i; pushd_src_tauri; bun_tauri_build; popd;
    codesign_executable (env i); codesign_bundle (env i); hdiutil_create;
    codesign_dmg (env i) ]
  ++ (if wants_notarize i
      then [ notarytool_submit (env i) (team_id_used (env i));
             stapler_staple ]
      else []))%list.

(** The [echo] lines that are run before [read] when no test fails. *)
Definition early_echoes (i : Input) : list nat :=
  ((if has_dotenv i then [118] else [])
   ++ [130; 131; 132]
   ++ (if decide (APPLE_TEAM_ID (env i) = "") then [141; 150] else []))%nat
  %list.


(** All the [echo] lines of a run in which nothing fails, in order. *)
Definition echoes (i : Input) : list nat :=
  (early_echoes i
   ++ [165; 169; 177; 181; 185; 188]
   ++ (if wants_notarize i then [192; 201] else [])
   ++ [205; 206; 207; 208; 209; 210; 211; 212; 213; 214])%nat%list.

(** A statement of the straight-line part of the script. *)
Inductive stmt : Type :=
  | Say (line : nat)
  | Run (argv : list string).
Arguments Say line%_nat.

(** Lines 165 to 214 as a list of statements. *)
Definition build_steps (i : Input) : list stmt :=
  ([ Say 165; Run (cd_script_dir i); Run pushd_src_tauri;
     Say 169; Run bun_tauri_build; Run popd;
     Say 177; Run (codesign_executable (env i));
     Say 181; Run (codesign_bundle (env i));
     Say 185; Run hdiutil_create;
     Say 188; Run (codesign_dmg (env i)) ]
   ++ (if wants_notarize i
       then [ Say 192;
              Run (notarytool_submit (env i) (team_id_used (env i)));
              Say 201; Run stapler_staple ]
       else [])
   ++ [ Say 205; Say 206; Say 207; Say 208; Say 209;
        Say 210; Say 211; Say 212; Say 213; Say 214 ])%list.

(** Running a list of statements one after the other. *)
Fixpoint exec (ss : list stmt) : Sh unit :=
  match ss with
  | [] => ret tt
  | Say n :: rest => bind (say n) (λ _, exec rest)
  | Run c :: rest => bind (run c) (λ _, exec rest)
  end.

(** The commands and the [echo] lines of a list of statements. *)
Fixpoint cmds_of (ss : list stmt) : list (list string) :=
  match ss with
  | [] => []
  | Say _ :: rest => cmds_of rest
  | Run c :: rest => c :: cmds_of rest
  end.

Fixpoint says_of (ss : list stmt) : list nat :=
  match ss with
  | [] => []
  | Say n :: rest => n :: says_of rest
  | Run _ :: rest => says_of rest
  end.

(** A statement succeeds. *)
Definition stmt_ok (i : Input) (s : stmt) : Prop :=
  match s with
  | Say n => echo_ok i n = true
  | Run c => status i c = 0
  end.

(** The commands of a list of statements that get started under
    [set -e]: those met before the first statement that fails, that one
    included when it is a command. *)
Fixpoint started (i : Input) (ss : list stmt) : list (list string) :=
  match ss with
  | [] => []
  | Say n :: rest => if echo_ok i n then started i rest else []
  | Run c :: rest =>
      c :: (if decide (status i c = 0) then started i rest else [])
  end.

(** The status of the first statement of the list that fails, 0 when
    none does. *)
Fixpoint first_failure (i : Input) (ss : list stmt) : Z :=
  match ss with
  | [] => 0
  | Say n :: rest => if echo_ok i n then first_failure i rest else 1
  | Run c :: rest =>
      if decide (status i c = 0) then first_failure i rest else status i c
  end.

(** A script fragment behaves as a list of statements. *)
Definition listed (m : Sh unit) (ss : list stmt) : Prop :=
  ∀ i t, m i t = exec ss i t.

(** How the script ends when it stops before having started anything:
    with status 1, or with the status of [read] when [read] failed. *)
Definition early_exit_code (i : Input) (c : Z) : Prop :=
  c = 1 ∨ (answer i = None ∧ c = Z.pos (read_failure i)).

(** A fragment ends the script before anything was started. *)
Definition stops_early {A : Type} (i : Input) (t : list (list string))
    (r : step A * list (list string)) : Prop :=
  ∃ c, r = (Exit c, t) ∧ early_exit_code i c.

(** The characters that [grep -o] can print with this pattern, and those
    that remain after [tr -d]. *)
Definition grep_char (c : ascii) : bool :=
  in_class c || Ascii.eqb c "(" || Ascii.eqb c ")" || Ascii.eqb c newline.

Definition team_char (c : ascii) : bool :=
  in_class c || Ascii.eqb c newline.

(** *** Sample inputs *)

(** A signing identity that ends in a team identifier, no
    [APPLE_TEAM_ID], and both notary credentials. *)
Definition sample_env : Env :=
  {| APPLE_SIGNING_IDENTITY :=
       "Developer ID Application: Acme, Inc (ABCDE12345)";
     APPLE_TEAM_ID := "";
     APPLE_ID := "dev@example.com";
     APPLE_PASSWORD := "app-specific-password" |}.

(** Every command and every [echo] succeeds and the answer to the
    prompt is "y". *)
Definition sample_notarized : Input :=
  {| has_dotenv := false; env := sample_env; script_dir := ".";
     answer := Some "y"; read_failure := 1%positive;
     status := λ _, 0; echo_ok := λ _, true |}.

(** The answer is "n" and [popd] fails with status 3. *)
Definition sample_popd_fails : Input :=
  {| has_dotenv := false; env := sample_env; script_dir := ".";
     answer := Some "n"; read_failure := 1%positive;
     status := λ c, if decide (c = popd) then 3 else 0;
     echo_ok := λ _, true |}.



End BuildSign.

(** Case analysis on a hypothesis [H : a ∈ apps]: one goal per entry of
    the literal. *)
Ltac each_app H :=
  unfold apps in H; rewrite !elem_of_cons, elem_of_nil in H;
  destruct H as [->|[->|[->|[->|[->|[->|[]]]]]]].

(** * Properties *)

(** ** Lists with duplicate-free keys *)

Section Keys.
Context {A K : Type} `{EqDecision K} (key : A → K).

Lemma NoDup_keys_lookup_ne (l : list A) (i j : nat) (a b : A) :
  NoDup (key <$> l) → l !! i = Some a → l !! j = Some b → i ≠ j →
  key a ≠ key b.
Proof.
  intros Hnd Hi Hj Hij Heq. apply Hij.
  apply (proj1 (NoDup_alt (key <$> l)) Hnd i j (key a)).
  - by rewrite list_lookup_fmap, Hi.
  - by rewrite list_lookup_fmap, Hj, Heq.
Qed.

Lemma filter_key_absent (l : list A) (k : K) :
  k ∉ key <$> l → filter (λ a, key a = k) l = [].
Proof.
  induction l as [|x l IH]; [done|].
  rewrite fmap_cons, not_elem_of_cons. intros [Hne Hnotin].
  rewrite filter_cons_False by congruence. auto.
Qed.

Lemma filter_key_unique (l : list A) (e : A) :
  NoDup (key <$> l) → e ∈ l → filter (λ a, key a = key e) l = [e].
Proof.
  induction l as [|x l IH]; intros Hnd Hin.
  - by apply elem_of_nil in Hin.
  - rewrite fmap_cons in Hnd. apply NoDup_cons in Hnd as [Hx Hnd].
    apply elem_of_cons in Hin as [->|Hin].
    + rewrite filter_cons_True by done.
      by rewrite (filter_key_absent l (key x) Hx).
    + rewrite filter_cons_False; [by apply IH|].
      intros Heq. apply Hx. rewrite Heq. by apply list_elem_of_fmap_2.
Qed.

End Keys.

(** ** The lookup operations on an arbitrary catalog *)

Lemma findByName_unique (c : list App.t) (e : App.t) :
  NoDup (names_of c) → e ∈ c → Catalog.findByName c (App.name e) = Ok e.
Proof.
  intros Hnd Hin. unfold Catalog.findByName.
  by rewrite (filter_key_unique App.name c e Hnd Hin).
Qed.

Lemma findByName_absent (c : list App.t) (n : string) :
  n ∉ names_of c → Catalog.findByName c n = Err NotFound.
Proof.
  intros Hn. unfold Catalog.findByName.
  by rewrite (filter_key_absent App.name c n Hn).
Qed.

Lemma findByName_Ok_inv (c : list App.t) (n : string) (a : App.t) :
  Catalog.findByName c n = Ok a → a ∈ c ∧ App.name a = n.
Proof.
  unfold Catalog.findByName. intros H.
  destruct (filter _ c) as [|x [|y r]] eqn:Hf; simplify_eq.
  assert (Hx : a ∈ filter (λ a0, App.name a0 = n) c)
    by (rewrite Hf; apply list_elem_of_here).
  apply list_elem_of_filter in Hx. tauto.
Qed.

Lemma requiredEnvVars_absent (c : list App.t) (n : string) :
  n ∉ names_of c → Catalog.requiredEnvVars c n = Err NotFound.
Proof.
  intros Hn. unfold Catalog.requiredEnvVars.
  by rewrite (findByName_absent c n Hn).
Qed.

Lemma names_of_absent (c : list App.t) (n : string) :
  (∀ e, e ∈ c → App.name e ≠ n) → n ∉ names_of c.
Proof.
  intros H Hin. apply list_elem_of_fmap in Hin as (e & -> & He).
  by apply (H e He).
Qed.

(** ** The shipped catalog *)

Lemma apps_names_NoDup : NoDup (names_of apps).
Proof. apply (bool_decide_unpack _). by vm_compute. Qed.

(** Membership in [apps] means being one of the six entries. *)
Lemma apps_cases (a : App.t) :
  a ∈ apps →
  a = browser ∨ a = hacker_news ∨ a = june ∨ a = linear ∨ a = gmail
  ∨ a = google_calendar.
Proof.
  unfold apps. rewrite !elem_of_cons, elem_of_nil. tauto.
Qed.

(** The recommended validation accepts the shipped literal and rejects
    the catalog with a second Gmail entry. *)
Lemma validate_apps : validate apps = Ok apps.
Proof. by vm_compute. Qed.

Lemma validate_two_gmail : validate two_gmail = Err MalformedCatalog.
Proof. by vm_compute. Qed.

(** ** Uniqueness of names *)

(** C1. Any two entries of the catalog at different positions have
    different [name] fields: [name] identifies an entry of [apps]. *)
Theorem C1_names_unique (i j : nat) (a b : App.t) :
  apps !! i = Some a → apps !! j = Some b → i ≠ j →
  App.name a ≠ App.name b.
Proof.
  intros Hi Hj Hij.
  exact (NoDup_keys_lookup_ne App.name apps i j a b apps_names_NoDup Hi Hj Hij).
Qed.

Lemma C1_names_unique_witness : App.name browser ≠ App.name gmail.
Proof.
  apply (C1_names_unique 0 4 browser gmail);
    [reflexivity | reflexivity | discriminate].
Defined.

(** ** Enumeration and lookup *)

(** C2. Every entry that [listAll] returns for the catalog is found again
    under its own name, and the entry found is equal to it field by
    field. *)
Theorem C2_findByName_listAll (e : App.t) :
  e ∈ Catalog.listAll apps →
  Catalog.findByName apps (App.name e) = Ok e.
Proof.
  unfold Catalog.listAll. intros He.
  exact (findByName_unique apps e apps_names_NoDup He).
Qed.

Lemma C2_findByName_listAll_witness :
  Catalog.findByName apps (App.name june) = Ok june.
Proof.
  apply (C2_findByName_listAll june).
  apply (bool_decide_unpack _). vm_compute. exact I.
Defined.

(** ** Loading performs no validation *)

(** C3, counterexample.  [two_gmail] holds two entries named "Gmail", and
    loading it does not end in [MalformedCatalog]. *)
Lemma C3_two_gmail_loads :
  length (filter (λ a, App.name a = "Gmail") two_gmail) = 2%nat
  ∧ load_catalog two_gmail ≠ Err MalformedCatalog.
Proof. split; [by vm_compute | discriminate]. Qed.

(** C3, as amended.  Binding the literal at module load checks nothing:
    it succeeds for every literal and yields the entries as written, the
    catalog with two "Gmail" entries included, so no [MalformedCatalog]
    arises at load time.  The shipped catalog has exactly one entry named
    "Gmail". *)
Theorem C3_load_unvalidated :
  (∀ literal : list App.t, load_catalog literal = Ok literal)
  ∧ load_catalog two_gmail = Ok (apps ++ [gmail])%list
  ∧ length (filter (λ a, App.name a = "Gmail") apps) = 1%nat.
Proof. repeat split. Qed.

(** ** Required environment variables *)

(** C4. [requiredEnvVars] gives the empty sequence for "Browser", exactly
    one spec named LINEAR_API_KEY for "Linear", and exactly two specs
    named JUNE_API_URL and JUNE_API_KEY, in this order, for "June"; in
    each case these are the specs the entry declares. *)
Theorem C4_requiredEnvVars :
  Catalog.requiredEnvVars apps "Browser" = Ok []
  ∧ (∃ v, Catalog.requiredEnvVars apps "Linear" = Ok [v]
          ∧ App.envVars linear = Some [v]
          ∧ EnvVarSpec.name v = "LINEAR_API_KEY")
  ∧ (∃ v1 v2, Catalog.requiredEnvVars apps "June" = Ok [v1; v2]
          ∧ App.envVars june = Some [v1; v2]
          ∧ EnvVarSpec.name v1 = "JUNE_API_URL"
          ∧ EnvVarSpec.name v2 = "JUNE_API_KEY").
Proof.
  split; [by vm_compute|]. split.
  - eexists. split; [by vm_compute|]. split; reflexivity.
  - do 2 eexists. split; [by vm_compute|]. repeat split.
Qed.

(** ** Unknown names *)

(** C5. A name carried by no entry of the catalog makes [findByName]
    signal [NotFound], and [requiredEnvVars] likewise. *)
Theorem C5_unknown_name_NotFound (n : string) :
  (∀ e, e ∈ apps → App.name e ≠ n) →
  Catalog.findByName apps n = Err NotFound
  ∧ Catalog.requiredEnvVars apps n = Err NotFound.
Proof.
  intros Hn. apply names_of_absent in Hn.
  split; [by apply findByName_absent | by apply requiredEnvVars_absent].
Qed.

Lemma C5_unknown_name_NotFound_witness :
  Catalog.findByName apps "__nonexistent__" = Err NotFound
  ∧ Catalog.requiredEnvVars apps "__nonexistent__" = Err NotFound.
Proof.
  apply (C5_unknown_name_NotFound "__nonexistent__").
  intros e He. each_app He; vm_compute; discriminate.
Defined.

(** ** Populated fields *)

(** C6. In every entry of the catalog the fields [name], [description],
    [developer], [category] and [price] are non-empty strings. *)
Theorem C6_required_fields_nonempty (a : App.t) :
  a ∈ apps →
  App.name a ≠ "" ∧ App.description a ≠ "" ∧ App.developer a ≠ ""
  ∧ App.category a ≠ "" ∧ App.price a ≠ "".
Proof.
  intros Ha. each_app Ha; cbn; repeat split; discriminate.
Qed.

Lemma C6_required_fields_nonempty_witness :
  App.name gmail ≠ "" ∧ App.description gmail ≠ ""
  ∧ App.developer gmail ≠ "" ∧ App.category gmail ≠ ""
  ∧ App.price gmail ≠ "".
Proof.
  apply (C6_required_fields_nonempty gmail).
  apply (bool_decide_unpack _). vm_compute. exact I.
Defined.

(** ** Declared environment variables *)

Lemma apps_envVars_ok : Forall (λ a, envVars_ok a = true) apps.
Proof. unfold apps. repeat constructor. Qed.

(** C7. Whenever an entry of the catalog has an [envVars] field, the
    sequence is non-empty and any two of its specs at different positions
    have different names. *)
Theorem C7_envVars_nonempty_unique (a : App.t) (vs : list EnvVarSpec.t) :
  a ∈ apps → App.envVars a = Some vs →
  vs ≠ []
  ∧ ∀ (i j : nat) (v w : EnvVarSpec.t),
      vs !! i = Some v → vs !! j = Some w → i ≠ j →
      EnvVarSpec.name v ≠ EnvVarSpec.name w.
Proof.
  intros Ha Hvs.
  pose proof apps_envVars_ok as Hall.
  rewrite Forall_forall in Hall. specialize (Hall a Ha).
  unfold envVars_ok in Hall. rewrite Hvs in Hall.
  apply andb_true_iff in Hall as [Hall Hnd].
  apply andb_true_iff in Hall as [Hne _].
  apply bool_decide_eq_true in Hne, Hnd. split; [done|].
  intros i j v w. by apply NoDup_keys_lookup_ne.
Qed.

Lemma C7_envVars_nonempty_unique_witness :
  ∃ vs, App.envVars june = Some vs ∧ vs ≠ []
  ∧ ∀ (i j : nat) (v w : EnvVarSpec.t),
      vs !! i = Some v → vs !! j = Some w → i ≠ j →
      EnvVarSpec.name v ≠ EnvVarSpec.name w.
Proof.
  eexists. split; [reflexivity|].
  apply (C7_envVars_nonempty_unique june); [|reflexivity].
  apply (bool_decide_unpack _). vm_compute. exact I.
Defined.

(** ** Enumeration order *)



(** ** Contents of the literal *)

(** C9. The catalog has exactly six entries, named "Browser",
    "Hacker News", "June", "Linear", "Gmail" and "Google Calendar" in this
    order; "June" and "Linear" are the entries with an [envVars] field
    and the four others have none. *)
Theorem C9_six_entries :
  length apps = 6%nat
  ∧ names_of apps
    = ["Browser"; "Hacker News"; "June"; "Linear"; "Gmail";
       "Google Calendar"]
  ∧ names_of (filter (λ a, is_Some (App.envVars a)) apps)
    = ["June"; "Linear"]
  ∧ names_of (filter (λ a, App.envVars a = None) apps)
    = ["Browser"; "Hacker News"; "Gmail"; "Google Calendar"].
Proof. repeat split; by vm_compute. Qed.

(** ** Icons *)

(** C10. Every entry's icon has [type] "url" and non-empty light and dark
    paths.  The two paths coincide in every entry but "Linear", whose
    light path is "/servers/linear-dark.svg" and whose dark path is
    "/servers/linear-light.svg". *)
Theorem C10_icons (a : App.t) :
  a ∈ apps →
  Icon.type (App.icon a) = "url"
  ∧ IconUrl.light (Icon.url (App.icon a)) ≠ ""
  ∧ IconUrl.dark (Icon.url (App.icon a)) ≠ ""
  ∧ (App.name a ≠ "Linear" →
       IconUrl.light (Icon.url (App.icon a))
       = IconUrl.dark (Icon.url (App.icon a)))
  ∧ (App.name a = "Linear" →
       IconUrl.light (Icon.url (App.icon a)) = "/servers/linear-dark.svg"
       ∧ IconUrl.dark (Icon.url (App.icon a)) = "/servers/linear-light.svg").
Proof.
  intros Ha. each_app Ha; cbn;
    (split; [reflexivity|]); (split; [discriminate|]);
    (split; [discriminate|]); split; intros H;
    try reflexivity; try discriminate; try (by split); by destruct H.
Qed.

Lemma C10_icons_witness :
  Icon.type (App.icon linear) = "url"
  ∧ IconUrl.light (Icon.url (App.icon linear)) ≠ ""
  ∧ IconUrl.dark (Icon.url (App.icon linear)) ≠ ""
  ∧ (App.name linear ≠ "Linear" →
       IconUrl.light (Icon.url (App.icon linear))
       = IconUrl.dark (Icon.url (App.icon linear)))
  ∧ (App.name linear = "Linear" →
       IconUrl.light (Icon.url (App.icon linear)) = "/servers/linear-dark.svg"
       ∧ IconUrl.dark (Icon.url (App.icon linear))
         = "/servers/linear-light.svg").
Proof.
  apply (C10_icons linear).
  apply (bool_decide_unpack _). vm_compute. exact I.
Defined.

(** * The build-and-sign script *)

Import BuildSign.

(** ** Statement lists under [set -e] *)

Lemma exec_started (ss : list stmt) (i : Input) (t : list (list string)) :
  exec ss i t
  = (if decide (first_failure i ss = 0) then Next tt
     else Exit (first_failure i ss),
     (t ++ started i ss)%list).
Proof.
  revert t. induction ss as [|[n|c] rest IH]; intros t; cbn.
  - unfold ret. by rewrite app_nil_r.
  - unfold bind, say. destruct (echo_ok i n); [apply IH|].
    by rewrite app_nil_r.
  - unfold bind, run. destruct (decide (status i c = 0)) as [Hc|Hc].
    + rewrite IH. by rewrite <- app_assoc.
    + destruct (decide (status i c = 0)); [done|]. reflexivity.
Qed.

Lemma exec_app (a b : list stmt) (i : Input) (t : list (list string)) :
  exec (a ++ b) i t = bind (exec a) (λ _, exec b) i t.
Proof.
  revert t. induction a as [|[n|c] a IH]; intros t; cbn.
  - reflexivity.
  - unfold bind.
    destruct (say n i t) as [[[]|code] t']; [by rewrite IH|done].
  - unfold bind.
    destruct (run c i t) as [[[]|code] t']; [by rewrite IH|done].
Qed.

Lemma listed_ret : listed (ret tt) [].
Proof. by intros i t. Qed.

Lemma listed_say (n : nat) : listed (say n) [Say n].
Proof.
  intros i t. cbn. unfold bind, ret.
  by destruct (say n i t) as [[[]|code] t'].
Qed.

Lemma listed_run (c : list string) : listed (run c) [Run c].
Proof.
  intros i t. cbn. unfold bind, ret.
  by destruct (run c i t) as [[[]|code] t'].
Qed.

Lemma listed_bind (m k : Sh unit) (a b : list stmt) :
  listed m a → listed k b → listed (bind m (λ _, k)) (a ++ b).
Proof.
  intros Hm Hk i t. rewrite exec_app. unfold bind. rewrite Hm.
  destruct (exec a i t) as [[[]|code] t']; [apply Hk|done].
Qed.

Lemma listed_eq (m : Sh unit) (a b : list stmt) :
  listed m a → a = b → listed m b.
Proof. by intros H <-. Qed.

Lemma started_prefix (i : Input) (ss : list stmt) :
  started i ss `prefix_of` cmds_of ss.
Proof.
  induction ss as [|[n|c] rest IH]; cbn; [done| |].
  - destruct (echo_ok i n); [done|apply prefix_nil].
  - destruct (decide (status i c = 0)).
    + by apply prefix_cons.
    + by exists (cmds_of rest).
Qed.

Lemma started_subseteq (i : Input) (ss : list stmt) (c : list string) :
  c ∈ started i ss → c ∈ cmds_of ss.
Proof.
  intros Hc. destruct (started_prefix i ss) as [rest ->].
  apply elem_of_app. by left.
Qed.

Lemma first_failure_ok (i : Input) (ss : list stmt) :
  first_failure i ss = 0 ↔ Forall (stmt_ok i) ss.
Proof.
  induction ss as [|[n|c] rest IH]; cbn; [by split| |].
  - destruct (echo_ok i n) eqn:En.
    + rewrite IH. split; [by constructor|by inversion 1].
    + split; [done|]. inversion 1 as [|? ? Hs]; subst.
      cbn in Hs. congruence.
  - destruct (decide (status i c = 0)) as [Hc|Hc].
    + rewrite IH. split; [by constructor|by inversion 1].
    + split; [done|by inversion 1].
Qed.

Lemma started_complete (i : Input) (ss : list stmt) :
  first_failure i ss = 0 → started i ss = cmds_of ss.
Proof.
  induction ss as [|[n|c] rest IH]; cbn; [done| |].
  - destruct (echo_ok i n); [done|discriminate].
  - destruct (decide (status i c = 0)); [|done]. intros H. by rewrite IH.
Qed.

Lemma started_last (i : Input) (ss : list stmt)
    (pre : list (list string)) (l : list string) :
  started i ss = (pre ++ [l])%list →
  Forall (λ c, status i c = 0) pre
  ∧ (status i l ≠ 0 → first_failure i ss = status i l).
Proof.
  revert pre. induction ss as [|[n|c] rest IH]; intros pre; cbn.
  - intros H. by destruct pre.
  - destruct (echo_ok i n); [apply IH|]. intros H. by destruct pre.
  - destruct (decide (status i c = 0)) as [Hc|Hc].
    + destruct pre as [|p pre]; cbn [app]; intros H.
      * injection H as -> _. split; [done|]. intros Hl. by destruct Hl.
      * injection H as -> H. destruct (IH pre H) as [Hall Hf].
        split; [by constructor|done].
    + destruct pre as [|p pre]; cbn [app]; intros H.
      * injection H as ->. by split.
      * injection H as _ H. by destruct pre.
Qed.

Lemma started_app_fail (i : Input) (a b : list stmt) :
  first_failure i a ≠ 0 → started i (a ++ b) = started i a.
Proof.
  induction a as [|[n|c] a IH]; cbn; [done| |].
  - destruct (echo_ok i n); [apply IH|done].
  - destruct (decide (status i c = 0)); [|done]. intros H. by rewrite IH.
Qed.

(** If a command of the second part of a list was started and does not
    occur in the first part, every statement of the first part
    succeeded. *)
Lemma started_reaches (i : Input) (a b : list stmt) (c : list string) :
  c ∈ started i (a ++ b) → c ∉ cmds_of a → Forall (stmt_ok i) a.
Proof.
  intros Hc Hna. apply first_failure_ok.
  destruct (decide (first_failure i a = 0)) as [|Hf]; [done|].
  rewrite (started_app_fail i a b Hf) in Hc.
  by apply started_subseteq in Hc.
Qed.

Lemma stmts_ok_split (i : Input) (ss : list stmt) :
  Forall (stmt_ok i) ss
  ↔ Forall (λ c, status i c = 0) (cmds_of ss)
    ∧ Forall (λ n, echo_ok i n = true) (says_of ss).
Proof.
  induction ss as [|[n|c] rest IH]; cbn.
  - by repeat split.
  - rewrite !Forall_cons, IH. cbn. tauto.
  - rewrite !Forall_cons, IH. cbn. tauto.
Qed.


Lemma forallb_true_Forall (f : nat → bool) (l : list nat) :
  forallb f l = true ↔ Forall (λ n, f n = true) l.
Proof.
  induction l as [|x l IH]; cbn; [by split|].
  rewrite andb_true_iff, Forall_cons, IH. tauto.
Qed.

(** ** The script as tests followed by a statement list *)

Lemma cmds_of_build_steps (i : Input) : cmds_of (build_steps i) = plan i.
Proof. unfold build_steps, plan. by destruct (wants_notarize i). Qed.

Lemma echoes_eq (i : Input) :
  echoes i = (early_echoes i ++ says_of (build_steps i))%list.
Proof. unfold echoes, build_steps. by destruct (wants_notarize i). Qed.

Lemma build_listed (i : Input) (s : string) :
  answer i = Some s →
  listed (build_sign_notarize i (team_id_used (env i)) s) (build_steps i).
Proof.
  intros Hs. unfold build_sign_notarize, build_steps, wants_notarize.
  rewrite Hs. destruct (is_yes s);
    (eapply listed_eq;
     [ repeat first [ apply listed_say | apply listed_run
                    | apply listed_ret | eapply listed_bind ]
     | reflexivity ]).
Qed.

Lemma bind_assoc {A B C : Type} (m : Sh A) (f : A → Sh B) (g : B → Sh C)
    (i : Input) (t : list (list string)) :
  bind (bind m f) g i t = bind m (λ x, bind (f x) g) i t.
Proof. unfold bind. by destruct (m i t) as [[a|c] t']. Qed.

Lemma bind_ret {A B : Type} (a : A) (k : A → Sh B) (i : Input)
    (t : list (list string)) :
  bind (ret a) k i t = k a i t.
Proof. reflexivity. Qed.

Lemma bind_exit {A B : Type} (c : Z) (k : A → Sh B) (i : Input)
    (t : list (list string)) :
  bind (exit c) k i t = (Exit c, t).
Proof. reflexivity. Qed.

Lemma bind_say {A : Type} (n : nat) (k : unit → Sh A) (i : Input)
    (t : list (list string)) :
  bind (say n) k i t = if echo_ok i n then k tt i t else (Exit 1, t).
Proof. unfold bind, say. by destruct (echo_ok i n). Qed.

Lemma stops_early_exit {A : Type} (i : Input) (t : list (list string)) :
  stops_early (A:=A) i t (Exit 1, t).
Proof. exists 1. split; [done|by left]. Qed.

Lemma stops_early_say {A : Type} (n : nat) (k : unit → Sh A) (i : Input)
    (t : list (list string)) :
  stops_early i t (k tt i t) → stops_early i t (bind (say n) k i t).
Proof.
  intros H. rewrite bind_say. destruct (echo_ok i n); [done|].
  apply stops_early_exit.
Qed.

Ltac sh_early :=
  repeat first
    [ rewrite bind_assoc
    | rewrite bind_ret
    | rewrite bind_exit
    | apply stops_early_exit
    | apply stops_early_say ].

(** When a test fails, the tests end the script with nothing started. *)
Lemma preflight_fail (i : Input) (t : list (list string)) :
  preflight_fails i → stops_early i t (preflight i i t).
Proof.
  unfold preflight_fails, team_id_used, wants_notarize, preflight.
  intros Hpf. cbn zeta.
  destruct (has_dotenv i); sh_early;
    (destruct (decide (APPLE_SIGNING_IDENTITY (env i) = "")) as [Hi|Hi];
     sh_early);
    (destruct (decide (APPLE_TEAM_ID (env i) = "")) as [Ht|Ht];
     sh_early; cbn zeta;
     [ destruct
         (decide (extract_team_id (APPLE_SIGNING_IDENTITY (env i)) = ""))
         as [Hx|Hx]; sh_early | ]);
    (unfold bind at 1, read_answer at 1;
     destruct (answer i) as [s|] eqn:Hs;
     [ | eexists; split; [reflexivity | by right] ]);
    (destruct (is_yes s) eqn:Hy; sh_early;
     [ destruct
         (decide (APPLE_ID (env i) = "" ∨ APPLE_PASSWORD (env i) = ""))
         as [Hc|Hc]; sh_early | ]);
    exfalso; intuition congruence.
Qed.

(** When no test fails, the tests hand over the team identifier and the
    answer, unless one of the [echo] lines on the way cannot write. *)
Lemma preflight_pass (i : Input) (t : list (list string)) :
  ¬ preflight_fails i →
  ∃ s, answer i = Some s
       ∧ preflight i i t
         = if forallb (echo_ok i) (early_echoes i)
           then (Next (team_id_used (env i), s), t)
           else (Exit 1, t).
Proof.
  unfold preflight_fails, team_id_used, wants_notarize, preflight,
    early_echoes.
  intros Hpf. destruct (answer i) as [s|] eqn:Hs; [|tauto].
  exists s. split; [done|]. cbn zeta.
  rewrite (decide_False (P := APPLE_SIGNING_IDENTITY (env i) = ""))
    by tauto.
  destruct (has_dotenv i);
    (destruct (decide (APPLE_TEAM_ID (env i) = "")) as [Ht|Ht];
     [ rewrite (decide_False
                  (P := extract_team_id (APPLE_SIGNING_IDENTITY (env i))
                        = "")) by tauto | ]);
    cbn [app forallb];
    match goal with |- _ = ?rhs => remember rhs as r eqn:Hr end;
    repeat first
      [ rewrite bind_assoc
      | rewrite bind_ret
      | rewrite bind_say;
        match goal with
        | |- (if echo_ok i ?n then _ else _) = _ =>
            destruct (echo_ok i n) eqn:?
        end ];
    try (subst r;
         repeat match goal with
                | H : echo_ok i _ = _ |- _ => rewrite H; clear H
                end; reflexivity);
    unfold bind at 1, read_answer at 1; rewrite Hs;
    (destruct (is_yes s);
     [ rewrite (decide_False
                  (P := APPLE_ID (env i) = "" ∨ APPLE_PASSWORD (env i) = ""))
         by tauto | ]);
    rewrite bind_ret; unfold ret; subst r;
    repeat match goal with
           | H : echo_ok i _ = _ |- _ => rewrite H; clear H
           end; reflexivity.
Qed.

Lemma build_and_sign_fail (i : Input) :
  preflight_fails i →
  (build_and_sign i).2 = [] ∧ early_exit_code i (build_and_sign i).1.
Proof.
  intros H. unfold build_and_sign, main, bind.
  destruct (preflight_fail i [] H) as (c & -> & Hc). by split.
Qed.

Lemma build_and_sign_pass (i : Input) :
  ¬ preflight_fails i →
  build_and_sign i
  = if forallb (echo_ok i) (early_echoes i)
    then (first_failure i (build_steps i), started i (build_steps i))
    else (1, []).
Proof.
  intros H. destruct (preflight_pass i [] H) as (s & Hs & E).
  unfold build_and_sign, main, bind. rewrite E.
  destruct (forallb (echo_ok i) (early_echoes i)); [|done].
  cbn [fst snd]. rewrite (build_listed i s Hs), exec_started.
  destruct (decide (first_failure i (build_steps i) = 0)) as [E0|E0];
    [by rewrite E0|done].
Qed.



(** ** Properties of a run *)



(** X2. Fail-stop: whatever the run, every command started before the
    last one returned 0; if the last command started returned a non-zero
    status, that status is the exit status of the script; hence a script
    that ends with status 0 has seen every command it started succeed. *)
Theorem X2_fail_stop (i : Input) (c : Z) (pre : list (list string))
    (l : list string) :
  build_and_sign i = (c, (pre ++ [l])%list) →
  Forall (λ x, status i x = 0) pre
  ∧ (status i l ≠ 0 → c = status i l)
  ∧ (c = 0 → status i l = 0).
Proof.
  intros E.
  assert (Hpf : ¬ preflight_fails i).
  { intros H. destruct (build_and_sign_fail i H) as [Ht _].
    rewrite E in Ht. cbn in Ht. by destruct pre. }
  rewrite (build_and_sign_pass i Hpf) in E.
  destruct (forallb (echo_ok i) (early_echoes i)).
  2:{ assert (E' : [] = (pre ++ [l])%list) by congruence. by destruct pre. }
  assert (Ec : first_failure i (build_steps i) = c) by congruence.
  assert (Et : started i (build_steps i) = (pre ++ [l])%list) by congruence.
  apply started_last in Et as [Hall Hl]. split; [done|].
  assert (Hs : status i l ≠ 0 → c = status i l).
  { intros H. rewrite <- Ec. by apply Hl. }
  split; [done|]. intros ->.
  destruct (decide (status i l = 0)) as [|Hne]; [done|].
  specialize (Hs Hne). congruence.
Qed.

Lemma X2_fail_stop_witness :
  Forall (λ x, status sample_popd_fails x = 0)
    [cd_script_dir sample_popd_fails; pushd_src_tauri; bun_tauri_build]
  ∧ (status sample_popd_fails popd ≠ 0 → 3 = status sample_popd_fails popd)
  ∧ (3 = 0 → status sample_popd_fails popd = 0).
Proof.
  apply (X2_fail_stop sample_popd_fails 3
           [cd_script_dir sample_popd_fails; pushd_src_tauri;
            bun_tauri_build] popd).
  vm_compute. reflexivity.
Defined.

(** X3. The commands started are an initial part of the full sequence:
    change of directory, build, the two signatures of the bundle, creation
    and signature of the disk image, and, when requested, submission to
    the notary followed by stapling. *)
Theorem X3_started_prefix_of_plan (i : Input) :
  (build_and_sign i).2 `prefix_of` plan i.
Proof.
  destruct (decide (preflight_fails i)) as [H|H].
  - destruct (build_and_sign_fail i H) as [-> _]. apply prefix_nil.
  - rewrite (build_and_sign_pass i H).
    destruct (forallb (echo_ok i) (early_echoes i)); cbn [fst snd].
    + rewrite <- cmds_of_build_steps. apply started_prefix.
    + apply prefix_nil.
Qed.

(** X4. A script that ends with status 0 has passed all its tests, has
    seen every command of the full sequence and every [echo] on the way
    succeed, and has started the full sequence. *)
Theorem X4_success (i : Input) :
  (build_and_sign i).1 = 0 →
  ¬ preflight_fails i
  ∧ Forall (λ c, status i c = 0) (plan i)
  ∧ Forall (λ n, echo_ok i n = true) (echoes i)
  ∧ (build_and_sign i).2 = plan i.
Proof.
  intros E.
  assert (Hpf : ¬ preflight_fails i).
  { intros H. destruct (build_and_sign_fail i H) as [_ [Hc|[_ Hc]]];
      rewrite E in Hc; discriminate. }
  split; [done|]. rewrite (build_and_sign_pass i Hpf) in E |- *.
  destruct (forallb (echo_ok i) (early_echoes i)) eqn:He;
    cbn [fst snd] in *; [|discriminate].
  pose proof (proj1 (first_failure_ok i (build_steps i)) E) as Hok.
  apply stmts_ok_split in Hok as [Hc Hs].
  rewrite cmds_of_build_steps in Hc. split; [done|]. split.
  - rewrite echoes_eq. apply Forall_app. split; [|done].
    by apply forallb_true_Forall.
  - rewrite <- cmds_of_build_steps. by apply started_complete.
Qed.

Lemma X4_success_witness :
  ¬ preflight_fails sample_notarized
  ∧ Forall (λ c, status sample_notarized c = 0) (plan sample_notarized)
  ∧ Forall (λ n, echo_ok sample_notarized n = true)
      (echoes sample_notarized)
  ∧ (build_and_sign sample_notarized).2 = plan sample_notarized.
Proof.
  apply (X4_success sample_notarized). vm_compute. reflexivity.
Defined.

(** X5. A notary command ([xcrun ...]) is started only if the answer to
    the prompt was exactly "y" or "Y", both [APPLE_ID] and
    [APPLE_PASSWORD] are non-empty, a non-empty team identifier is at
    hand, and the signature of the disk image succeeded. *)
Theorem X5_notarization_guard (i : Input) (cmd : list string) :
  cmd ∈ (build_and_sign i).2 → head cmd = Some "xcrun" →
  (answer i = Some "y" ∨ answer i = Some "Y")
  ∧ APPLE_ID (env i) ≠ "" ∧ APPLE_PASSWORD (env i) ≠ ""
  ∧ team_id_used (env i) ≠ ""
  ∧ status i (codesign_dmg (env i)) = 0.
Proof.
  intros Hin Hx.
  destruct (decide (preflight_fails i)) as [Hpf|Hpf].
  { destruct (build_and_sign_fail i Hpf) as [Ht _]. rewrite Ht in Hin.
    by apply elem_of_nil in Hin. }
  rewrite (build_and_sign_pass i Hpf) in Hin.
  destruct (forallb (echo_ok i) (early_echoes i)); cbn [fst snd] in Hin.
  2:{ by apply elem_of_nil in Hin. }
  unfold build_steps in Hin.
  assert (Hnot : cmd ∉ cmds_of
            [ Say 165; Run (cd_script_dir i); Run pushd_src_tauri;
              Say 169; Run bun_tauri_build; Run popd;
              Say 177; Run (codesign_executable (env i));
              Say 181; Run (codesign_bundle (env i));
              Say 185; Run hdiutil_create;
              Say 188; Run (codesign_dmg (env i)) ]).
  { cbn [cmds_of]. rewrite !not_elem_of_cons.
    repeat split; try apply not_elem_of_nil; intros ->; discriminate Hx. }
  pose proof (started_reaches _ _ _ _ Hin Hnot) as Hok.
  assert (Hw : wants_notarize i = true).
  { apply started_subseteq in Hin. fold (build_steps i) in Hin.
    rewrite cmds_of_build_steps in Hin. unfold plan in Hin.
    apply elem_of_app in Hin as [Hin|Hin].
    - exfalso. apply Hnot. exact Hin.
    - destruct (wants_notarize i); [done|]. by apply elem_of_nil in Hin. }
  unfold preflight_fails in Hpf. rewrite Hw in Hpf.
  unfold wants_notarize in Hw. destruct (answer i) as [s|]; [|done].
  unfold is_yes in Hw. apply bool_decide_eq_true in Hw.
  assert (Hcred : ¬ (APPLE_ID (env i) = "" ∨ APPLE_PASSWORD (env i) = ""))
    by tauto.
  split; [destruct Hw as [-> | ->]; tauto|].
  split; [tauto|]. split; [tauto|]. split; [tauto|].
  rewrite Forall_forall in Hok.
  apply (Hok (Run (codesign_dmg (env i)))).
  rewrite !elem_of_cons. tauto.
Qed.

Lemma X5_notarization_guard_witness :
  (answer sample_notarized = Some "y" ∨ answer sample_notarized = Some "Y")
  ∧ APPLE_ID (env sample_notarized) ≠ ""
  ∧ APPLE_PASSWORD (env sample_notarized) ≠ ""
  ∧ team_id_used (env sample_notarized) ≠ ""
  ∧ status sample_notarized (codesign_dmg (env sample_notarized)) = 0.
Proof.
  apply (X5_notarization_guard sample_notarized stapler_staple);
    [|reflexivity].
  apply (bool_decide_unpack _). vm_compute. exact I.
Defined.

(** X6. The disk image is created only after the build and both
    signatures of the bundle succeeded. *)
Theorem X6_dmg_after_signing (i : Input) :
  hdiutil_create ∈ (build_and_sign i).2 →
  status i bun_tauri_build = 0
  ∧ status i (codesign_executable (env i)) = 0
  ∧ status i (codesign_bundle (env i)) = 0.
Proof.
  intros Hin.
  destruct (decide (preflight_fails i)) as [Hpf|Hpf].
  { destruct (build_and_sign_fail i Hpf) as [Ht _]. rewrite Ht in Hin.
    by apply elem_of_nil in Hin. }
  rewrite (build_and_sign_pass i Hpf) in Hin.
  destruct (forallb (echo_ok i) (early_echoes i)); cbn [fst snd] in Hin.
  2:{ by apply elem_of_nil in Hin. }
  unfold build_steps in Hin.
  change (hdiutil_create ∈ started i
            ([ Say 165; Run (cd_script_dir i); Run pushd_src_tauri;
               Say 169; Run bun_tauri_build; Run popd;
               Say 177; Run (codesign_executable (env i));
               Say 181; Run (codesign_bundle (env i)); Say 185 ]
             ++ ([ Run hdiutil_create; Say 188; Run (codesign_dmg (env i)) ]
                 ++ (if wants_notarize i
                     then [ Say 192;
                            Run (notarytool_submit (env i)
                                   (team_id_used (env i)));
                            Say 201; Run stapler_staple ]
                     else [])
                 ++ [ Say 205; Say 206; Say 207; Say 208; Say 209;
                      Say 210; Say 211; Say 212; Say 213; Say 214 ]))%list)
    in Hin.
  apply started_reaches in Hin.
  - rewrite Forall_forall in Hin.
    repeat split.
    + apply (Hin (Run bun_tauri_build)). rewrite !elem_of_cons. tauto.
    + apply (Hin (Run (codesign_executable (env i)))).
      rewrite !elem_of_cons. tauto.
    + apply (Hin (Run (codesign_bundle (env i)))).
      rewrite !elem_of_cons. tauto.
  - cbn [cmds_of]. rewrite !not_elem_of_cons.
    repeat split; try apply not_elem_of_nil; discriminate.
Qed.

Lemma X6_dmg_after_signing_witness :
  status sample_notarized bun_tauri_build = 0
  ∧ status sample_notarized (codesign_executable (env sample_notarized)) = 0
  ∧ status sample_notarized (codesign_bundle (env sample_notarized)) = 0.
Proof.
  apply (X6_dmg_after_signing sample_notarized).
  apply (bool_decide_unpack _). vm_compute. exact I.
Defined.




(** ** Extraction of the team identifier *)

Lemma append_nil_l (a : string) : "" +:+ a = a.
Proof. reflexivity. Qed.

Lemma append_cons (x : ascii) (a b : string) :
  String x a +:+ b = String x (a +:+ b).
Proof. reflexivity. Qed.

Lemma append_assoc (a b c : string) : (a +:+ b) +:+ c = a +:+ (b +:+ c).
Proof.
  induction a as [|x a IH]; rewrite ?append_nil_l, ?append_cons; [done|].
  by f_equal.
Qed.

Lemma append_nil_r (a : string) : a +:+ "" = a.
Proof.
  induction a as [|x a IH]; rewrite ?append_nil_l, ?append_cons; [done|].
  by f_equal.
Qed.

Lemma all_chars_app (p : ascii → bool) (a b : string) :
  all_chars p (a +:+ b) = all_chars p a && all_chars p b.
Proof.
  induction a as [|x a IH]; rewrite ?append_nil_l, ?append_cons; cbn;
    [done|].
  rewrite IH. by rewrite andb_assoc.
Qed.

Lemma in_class_not_paren (c : ascii) :
  in_class c = true → Ascii.eqb c "(" = false ∧ Ascii.eqb c ")" = false.
Proof.
  intros Hc. split; apply Ascii.eqb_neq; intros ->; discriminate Hc.
Qed.

Lemma in_class_not_newline (c : ascii) :
  in_class c = true → Ascii.eqb c newline = false.
Proof. intros Hc. apply Ascii.eqb_neq. intros ->. discriminate Hc. Qed.

Lemma grep_o_skip (s r : string) :
  all_chars (is_not "(") s = true → grep_o None (s +:+ r) = grep_o None r.
Proof.
  induction s as [|c s IH]; rewrite ?append_nil_l, ?append_cons; cbn;
    [done|].
  intros H. apply andb_true_iff in H as [Hc Hs].
  unfold is_not in Hc. apply negb_true_iff in Hc. rewrite Hc. auto.
Qed.

Lemma grep_o_nothing (s : string) :
  all_chars (is_not "(") s = true → grep_o None s = "".
Proof.
  intros H. rewrite <- (append_nil_r s). by rewrite grep_o_skip.
Qed.

Lemma grep_o_run (run s r : string) :
  all_chars in_class s = true →
  grep_o (Some run) (s +:+ r) = grep_o (Some (run +:+ s)) r.
Proof.
  revert run.
  induction s as [|c s IH]; intros run;
    rewrite ?append_nil_l, ?append_cons; cbn.
  - by rewrite append_nil_r.
  - intros H. apply andb_true_iff in H as [Hc Hs].
    destruct (in_class_not_paren c Hc) as [-> ->]. rewrite Hc.
    rewrite IH by done. by rewrite append_assoc, append_cons.
Qed.


Lemma tr_d_class (s r : string) :
  all_chars in_class s = true → tr_d (s +:+ r) = s +:+ tr_d r.
Proof.
  induction s as [|c s IH]; rewrite ?append_nil_l, ?append_cons; cbn;
    [done|].
  intros H. apply andb_true_iff in H as [Hc Hs].
  destruct (in_class_not_paren c Hc) as [-> ->]. cbn. by rewrite IH.
Qed.

Lemma strip_class (s : string) :
  all_chars in_class s = true →
  strip_trailing_newlines (s +:+ String newline "") = s.
Proof.
  induction s as [|c s IH]; rewrite ?append_nil_l, ?append_cons; cbn;
    [done|].
  intros H. apply andb_true_iff in H as [Hc Hs]. rewrite IH by done.
  destruct s; [|done]. by rewrite (in_class_not_newline c Hc).
Qed.

(** An argument that holds an opening parenthesis is not taken as
    options: [echo] prints it, followed by a newline. *)
Lemma paren_not_option (a b : string) :
  is_echo_option (a +:+ String "(" b) = false.
Proof.
  destruct a as [|c0 [|c1 a]]; rewrite ?append_cons, ?append_nil_l.
  - by destruct b.
  - cbn. apply andb_false_r.
  - cbn -[String.append]. rewrite all_chars_app. cbn.
    by rewrite !andb_false_r.
Qed.

Lemma echo_paren (a b : string) :
  echo (a +:+ String "(" b) = a +:+ (String "(" b +:+ String newline "").
Proof. unfold echo. rewrite paren_not_option. apply append_assoc. Qed.

Lemma class_grep_chars (s : string) :
  all_chars in_class s = true → all_chars grep_char s = true.
Proof.
  induction s as [|c s IH]; cbn; [done|].
  intros H. apply andb_true_iff in H as [Hc Hs].
  rewrite IH by done. unfold grep_char. by rewrite Hc.
Qed.

Lemma grep_o_alphabet (s : string) (cur : option string) :
  (∀ r, cur = Some r → all_chars in_class r = true) →
  all_chars grep_char (grep_o cur s) = true.
Proof.
  revert cur. induction s as [|c s IH]; intros cur Hcur; cbn; [done|].
  destruct (Ascii.eqb c "(") eqn:Eo.
  { apply IH. by intros r [= <-]. }
  destruct cur as [r|]; [|by apply IH].
  destruct (Ascii.eqb c ")") eqn:Ec.
  - rewrite !all_chars_app. cbn.
    rewrite class_grep_chars by auto. by rewrite IH.
  - destruct (in_class c) eqn:Ecl; [|by apply IH].
    apply IH. intros r' [= <-]. rewrite all_chars_app. cbn.
    rewrite (Hcur r) by done. by rewrite Ecl.
Qed.

Lemma tr_d_alphabet (s : string) :
  all_chars grep_char s = true → all_chars team_char (tr_d s) = true.
Proof.
  induction s as [|c s IH]; cbn; [done|].
  intros H. apply andb_true_iff in H as [Hc Hs].
  destruct (Ascii.eqb c "(") eqn:Eo; cbn; [auto|].
  destruct (Ascii.eqb c ")") eqn:Ec; cbn; [auto|].
  rewrite IH by done. unfold grep_char in Hc. rewrite Eo, Ec in Hc.
  unfold team_char. rewrite andb_true_r.
  by rewrite !orb_false_r in Hc.
Qed.

Lemma strip_alphabet (p : ascii → bool) (s : string) :
  all_chars p s = true → all_chars p (strip_trailing_newlines s) = true.
Proof.
  induction s as [|c s IH]; cbn; [done|].
  intros H. apply andb_true_iff in H as [Hc Hs].
  specialize (IH Hs). destruct (strip_trailing_newlines s) as [|d r].
  - destruct (Ascii.eqb c newline); cbn; [done|]. by rewrite Hc.
  - cbn in *. by rewrite Hc.
Qed.

(** X7. What the script extracts from a signing identity never contains
    anything but upper-case letters, digits and newlines (the latter only
    between several parenthesised groups). *)
Theorem X7_extract_team_id_alphabet (identity : string) :
  all_chars team_char (extract_team_id identity) = true.
Proof.
  unfold extract_team_id.
  apply strip_alphabet, tr_d_alphabet, grep_o_alphabet. by intros r [=].
Qed.

(** X8. When the signing identity has the shape [prefix (ID) suffix],
    with no other opening parenthesis and [ID] made of upper-case letters
    and digits, the script extracts exactly [ID]. *)
Theorem X8_extract_team_id_roundtrip (pre id suf : string) :
  all_chars (is_not "(") pre = true →
  all_chars in_class id = true →
  all_chars (is_not "(") suf = true →
  extract_team_id (pre +:+ String "(" (id +:+ String ")" suf)) = id.
Proof.
  intros Hpre Hid Hsuf. unfold extract_team_id.
  rewrite echo_paren, grep_o_skip by done.
  rewrite !append_cons, append_assoc, append_cons.
  cbn [grep_o]. change (Ascii.eqb "(" "(") with true. cbn iota.
  rewrite grep_o_run, append_nil_l by done.
  cbn [grep_o]. change (Ascii.eqb ")" "(") with false.
  change (Ascii.eqb ")" ")") with true. cbn iota.
  rewrite grep_o_nothing.
  2:{ rewrite all_chars_app, Hsuf. done. }
  rewrite append_nil_r, append_cons. cbn [tr_d].
  change (Ascii.eqb "(" "(") with true. cbn [orb].
  rewrite tr_d_class by done. cbn. by apply strip_class.
Qed.

Lemma X8_extract_team_id_roundtrip_witness :
  extract_team_id
    ("Developer ID Application: Acme, Inc "
     +:+ String "(" ("ABCDE12345" +:+ String ")" ""))
  = "ABCDE12345".
Proof.
  apply (X8_extract_team_id_roundtrip
           "Developer ID Application: Acme, Inc " "ABCDE12345" "");
    reflexivity.
Defined.



(** * Further invariants of the catalog literal *)

(** X10. An environment variable name identifies its declaration in the
    whole catalog: two declared specs with the same name belong to the
    same entry and are the same spec. *)
Theorem X10_env_var_names_global (a b : App.t) (v w : EnvVarSpec.t) :
  a ∈ apps → b ∈ apps → v ∈ declared a → w ∈ declared b →
  EnvVarSpec.name v = EnvVarSpec.name w →
  a = b ∧ v = w.
Proof.
  intros Ha Hb Hv Hw.
  intros Hn.
  each_app Ha; each_app Hb; unfold declared in Hv, Hw; cbn in Hv, Hw;
    split_members; subst;
    cbn in Hn; first [done | discriminate Hn].
Qed.

Lemma X10_env_var_names_global_witness : june = june ∧
  {| EnvVarSpec.name := "JUNE_API_KEY";
     EnvVarSpec.label := "June API Key";
     EnvVarSpec.description := "June API Key" |}
  = {| EnvVarSpec.name := "JUNE_API_KEY";
       EnvVarSpec.label := "June API Key";
       EnvVarSpec.description := "June API Key" |}.
Proof.
  apply (X10_env_var_names_global june june);
    [apply (bool_decide_unpack _); vm_compute; exact I ..| reflexivity].
Defined.

(** X11. Every declared environment variable has a non-empty name, label
    and description, and its name is written with upper-case letters and
    underscores only. *)
Theorem X11_env_var_specs_wellformed (a : App.t) (v : EnvVarSpec.t) :
  a ∈ apps → v ∈ declared a →
  EnvVarSpec.name v ≠ "" ∧ EnvVarSpec.label v ≠ ""
  ∧ EnvVarSpec.description v ≠ ""
  ∧ all_chars env_var_char (EnvVarSpec.name v) = true.
Proof.
  intros Ha Hv.
  each_app Ha; unfold declared in Hv; cbn in Hv; split_members; subst;
    cbn;
    repeat split; first [discriminate | reflexivity].
Qed.

Lemma X11_env_var_specs_wellformed_witness :
  ∃ v, App.envVars linear = Some [v]
  ∧ EnvVarSpec.name v ≠ "" ∧ EnvVarSpec.label v ≠ ""
  ∧ EnvVarSpec.description v ≠ ""
  ∧ all_chars env_var_char (EnvVarSpec.name v) = true.
Proof.
  eexists. split; [reflexivity|].
  apply (X11_env_var_specs_wellformed linear);
    apply (bool_decide_unpack _); vm_compute; exact I.
Defined.

(** X12. Every icon path of the catalog, light or dark, lies under
    [/servers/] and names an [.svg] file. *)
Theorem X12_icon_paths (a : App.t) (p : string) :
  a ∈ apps → p ∈ icon_paths a →
  String.prefix "/servers/" p = true ∧ has_suffix ".svg" p = true.
Proof.
  intros Ha Hp.
  each_app Ha; unfold icon_paths in Hp; cbn in Hp; split_members; subst;
    vm_compute;
    split; reflexivity.
Qed.

Lemma X12_icon_paths_witness :
  String.prefix "/servers/" "/servers/linear-light.svg" = true
  ∧ has_suffix ".svg" "/servers/linear-light.svg" = true.
Proof.
  apply (X12_icon_paths linear "/servers/linear-light.svg");
    apply (bool_decide_unpack _); vm_compute; exact I.
Defined.

